(** * C++11 snippets: initializer lists, nullptr, variadic templates

    A shallow embedding of the three programs under
    [analysis/cpp11/codeSnippets]:

    - [initLists.cxx]  (module [InitLists])
    - [nullptr.cxx]    (module [Nullptr])
    - [variadic.cxx]   (module [Variadic])

    Every program only writes to [std::cout]; a run is modelled as a
    state transformer over the process, whose only mutable part is the
    text written to standard output. *)

From Stdlib Require Import ZArith List String Ascii Bool Lia.
From Stdlib Require Import DecimalString DecimalZ.
From Stdlib Require Import Wf_nat.
From Stdlib Require Import Permutation.
Import ListNotations.

Local Open Scope string_scope.
Local Open Scope Z_scope.

(** ** The run-time shared by the three programs *)

Module Cxx.

(** [int] is the 32-bit two's complement integer of the usual ABIs.
    Values are carried as [Z]; an [int] is a [Z] accepted by [in_int]. *)
Definition INT_MIN : Z := -2147483648.
Definition INT_MAX : Z := 2147483647.

Definition in_int (z : Z) : bool := (INT_MIN <=? z) && (z <=? INT_MAX).

(** Reduction of a mathematical integer to the [int] with the same
    residue modulo 2^32. *)
Definition wrap_int (z : Z) : Z := (z + 2 ^ 31) mod 2 ^ 32 - 2 ^ 31.

(** [a + b] on two [int]s: the machine addition, which wraps around.
    (The language itself leaves a signed sum outside the range undefined;
    see [sums_fit] below for the calls where this does not arise.) *)
Definition int_add (a b : Z) : Z := wrap_int (a + b).

(** What a process can be handed from outside.  None of the three
    [main] functions declares parameters or reads any of it. *)
Record world : Type := mkWorld {
  argv : list string;
  environ : list (string * string);
  stdin : string
}.

(** A running process: the outside it was started in and the text it has
    written to standard output so far. *)
Record process : Type := mkProcess {
  host : world;
  cout : string
}.

Definition start (w : world) : process := {| host := w; cout := "" |}.

(** A start with no arguments, an empty environment and no input. *)
Definition bare : world := {| argv := []; environ := []; stdin := "" |}.

(** Statements and expressions with effects. *)
Definition M (A : Type) : Type := process -> A * process.

Definition ret {A : Type} (a : A) : M A := fun p => (a, p).

Definition bind {A B : Type} (m : M A) (k : A -> M B) : M B :=
  fun p => let (a, p') := m p in k a p'.

Declare Scope cxx_scope.
Delimit Scope cxx_scope with cxx.
Notation "x <- m ;; k" := (bind m (fun x => k))
  (at level 61, m at next level, right associativity) : cxx_scope.
Notation "m ;; k" := (bind m (fun _ => k))
  (at level 61, right associativity) : cxx_scope.

(** The line feed character written by ["\n"] and by [std::endl]. *)
Definition newline : string := String "010"%char EmptyString.

(** The decimal numeral [operator<<(int)] writes with the default
    format flags: an optional minus sign and the digits. *)
Definition decimal (i : Z) : string := NilEmpty.string_of_int (Z.to_int i).

(** The integer a decimal numeral denotes. *)
Definition numeral_value (s : string) : option Z :=
  option_map Z.of_int (NilEmpty.int_of_string s).

(** [cout << "text"] *)
Definition insert_text (s : string) : M unit :=
  fun p => (tt, {| host := host p; cout := cout p ++ s |}).

(** [cout << i] for an [int] *)
Definition insert_int (i : Z) : M unit := insert_text (decimal i).

(** [cout << endl]: a line feed, then a flush (which adds no text). *)
Definition endl : M unit := insert_text newline.

(** A translation unit that is well-formed yields a [main]; [None] stands
    for a program the compiler rejects.  Running it gives the exit code
    and the text on standard output. *)
Definition program : Type := option (M Z).

Definition run_main (prog : program) (w : world) : option (Z * string) :=
  match prog with
  | Some main => let (code, p) := main (start w) in Some (code, cout p)
  | None => None
  end.

(** Text made of whole lines, and the lines of a text. *)
Fixpoint unlines (ls : list string) : string :=
  match ls with
  | [] => ""
  | l :: ls' => l ++ newline ++ unlines ls'
  end.

Fixpoint lines_from (cur : string) (s : string) : list string :=
  match s with
  | EmptyString => match cur with EmptyString => [] | _ => [cur] end
  | String c s' =>
      if Ascii.eqb c "010"%char then cur :: lines_from "" s'
      else lines_from (cur ++ String c EmptyString) s'
  end.

Definition lines (s : string) : list string := lines_from "" s.

(** The text before the first line feed, and the text after it. *)
Fixpoint first_line (s : string) : string :=
  match s with
  | EmptyString => EmptyString
  | String c s' =>
      if Ascii.eqb c "010"%char then EmptyString
      else String c (first_line s')
  end.

Fixpoint after_first_line (s : string) : string :=
  match s with
  | EmptyString => EmptyString
  | String c s' =>
      if Ascii.eqb c "010"%char then s' else after_first_line s'
  end.

End Cxx.

Import Cxx.
Local Open Scope cxx_scope.

(** ** initLists.cxx *)

Module InitLists.

(** [class Position] with its three private [int] members. *)
Record Position : Type := mkPosition {
  fX : Z;
  fY : Z;
  fZ : Z
}.

(** [Position() {fX = 0; fY = 0; fZ = 0;}] *)
Definition Position_default : Position :=
  {| fX := 0; fY := 0; fZ := 0 |}.

(** [Position(int x, int y, int z) {fX = x; fY = y; fZ = z;}] *)
Definition Position_xyz (x y z : Z) : Position :=
  {| fX := x; fY := y; fZ := z |}.

(** Initialisation from a brace-enclosed list: the constructor is chosen
    by the number of elements; the class has no constructor for any other
    count, and such a list is rejected. *)
Definition list_init (braces : list Z) : option Position :=
  match braces with
  | [] => Some Position_default
  | [x; y; z] => Some (Position_xyz x y z)
  | _ => None
  end.

(** [std::vector<Position> v = { b1, b2, ... }]: one element for each
    inner list, in order. *)
Fixpoint vector_init (elems : list (list Z)) : option (list Position) :=
  match elems with
  | [] => Some []
  | b :: bs =>
      match list_init b, vector_init bs with
      | Some e, Some es => Some (e :: es)
      | _, _ => None
      end
  end.

(** [void printCoordinates()], a non-const member: it receives the
    object and hands it back as it leaves it. *)
Definition printCoordinates (this : Position) : M Position :=
  insert_text "(" ;; insert_int (fX this) ;;
  insert_text ", " ;; insert_int (fY this) ;;
  insert_text ", " ;; insert_int (fZ this) ;;
  insert_text ")" ;; endl ;;
  ret this.

(** [for (auto i : range) body(i);] The loop variable is a copy of the
    element: the body works on the copy, which is destroyed at the end of
    the iteration, and the range is what it was.  The result is the range
    as the loop leaves it. *)
Fixpoint range_for_auto {A : Type} (body : A -> M A) (range : list A)
  : M (list A) :=
  match range with
  | [] => ret []
  | elem :: rest =>
      let i := elem in
      _ <- body i ;;
      rest' <- range_for_auto body rest ;;
      ret (elem :: rest')
  end.

(** The local variables of [main]. *)
Record locals : Type := mkLocals {
  centreOfTheUniverse : Position;
  places : list Position
}.

(** The body of [main] up to its closing brace, with the locals as they
    are there. *)
Definition main_body : option (M locals) :=
  match list_init [-1; -100; -1],
        vector_init [[1; 2; 3]; []; [4; 5; 6]] with
  | Some centre, Some v =>
      Some (centre' <- printCoordinates centre ;;
            v' <- range_for_auto printCoordinates v ;;
            ret {| centreOfTheUniverse := centre'; places := v' |})
  | _, _ => None
  end.

(** [int main()]: control reaches the closing brace, which returns 0. *)
Definition main : program :=
  option_map (fun body => _ <- body ;; ret 0) main_body.

End InitLists.

(** ** nullptr.cxx *)

Module Nullptr.

(** The types that meet at the call sites of [printMe]. *)
Inductive type : Type :=
| Tint          (* int *)
| Tlong         (* long, the type of the NULL macro with GCC and Clang *)
| Tint_ptr      (* int* *)
| Tnullptr_t.   (* std::nullptr_t *)

(** The argument expressions: an integer literal, the macro [NULL] of the
    call that is commented out, and the literal [nullptr]. *)
Inductive arg : Type :=
| literal (z : Z)
| NULL
| nullptr.

Definition type_of (a : arg) : type :=
  match a with
  | literal _ => Tint
  | NULL => Tlong
  | nullptr => Tnullptr_t
  end.

(** A null pointer constant is an integer literal with value zero or a
    prvalue of type [std::nullptr_t]. *)
Definition null_pointer_constant (a : arg) : bool :=
  match a with
  | literal z => z =? 0
  | NULL => true
  | nullptr => true
  end.

(** Ranks of implicit conversion sequences, best first. *)
Inductive rank : Type := ExactMatch | Promotion | Conversion.

Definition rank_index (r : rank) : nat :=
  match r with ExactMatch => 0 | Promotion => 1 | Conversion => 2 end.

(** The implicit conversion of an argument to a parameter type, if there
    is one: identity on the same type, an integral conversion from [long]
    to [int], the null pointer conversion of a null pointer constant to
    [int*]; [std::nullptr_t] converts to no integer type. *)
Definition conversion (a : arg) (to : type) : option rank :=
  match to with
  | Tint =>
      match type_of a with
      | Tint => Some ExactMatch
      | Tlong => Some Conversion
      | _ => None
      end
  | Tint_ptr => if null_pointer_constant a then Some Conversion else None
  | Tlong =>
      match type_of a with
      | Tlong => Some ExactMatch
      | Tint => Some Conversion
      | _ => None
      end
  | Tnullptr_t =>
      match type_of a with Tnullptr_t => Some ExactMatch | _ => None end
  end.

(** The two functions named [printMe]. *)
Inductive overload : Type :=
| printMe_int    (* void printMe(int i) *)
| printMe_ptr.   (* void printMe(int *i) *)

Definition overload_eqb (f g : overload) : bool :=
  match f, g with
  | printMe_int, printMe_int | printMe_ptr, printMe_ptr => true
  | _, _ => false
  end.

Definition parameter (f : overload) : type :=
  match f with printMe_int => Tint | printMe_ptr => Tint_ptr end.

Definition candidates : list overload := [printMe_int; printMe_ptr].

Definition viable (a : arg) : list overload :=
  filter (fun f => match conversion a (parameter f) with
                   | Some _ => true | None => false end) candidates.

(** [f] is a better match than [g] for [a] when its conversion has a
    strictly better rank. *)
Definition better (a : arg) (f g : overload) : bool :=
  match conversion a (parameter f), conversion a (parameter g) with
  | Some rf, Some rg => (rank_index rf <? rank_index rg)%nat
  | _, _ => false
  end.

Inductive resolution : Type :=
| Selected (f : overload)
| Ambiguous
| NoViable.

(** Overload resolution of [printMe(a)]: the viable function that is
    better than every other viable one, if there is exactly one. *)
Definition resolve (a : arg) : resolution :=
  match viable a with
  | [] => NoViable
  | fs =>
      match filter (fun f =>
               forallb (fun g => overload_eqb f g || better a f g) fs) fs
      with
      | [f] => Selected f
      | _ => Ambiguous
      end
  end.

(** Values of type [int*]. *)
Inductive pointer : Type :=
| null_pointer
| address (a : N).

(** The argument after its conversion to the parameter type. *)
Definition as_int (a : arg) : option Z :=
  match a with
  | literal z => Some z
  | NULL => Some 0
  | nullptr => None
  end.

Definition as_pointer (a : arg) : option pointer :=
  if null_pointer_constant a then Some null_pointer else None.

Section Implementation.

(** The text the inserter for pointers writes is left to the
    implementation of the standard library. *)
Variable show_pointer : pointer -> string.

(** [cout << p] for a pointer *)
Definition insert_pointer (p : pointer) : M unit :=
  insert_text (show_pointer p).

(** [void printMe(int i)] *)
Definition printMe_int_body (i : Z) : M unit :=
  insert_text "I am an integer: " ;; insert_int i ;; endl.

(** [void printMe(int *i)] *)
Definition printMe_ptr_body (i : pointer) : M unit :=
  insert_text "I am a pointer to an integer: " ;; insert_pointer i ;; endl.

(** A call [printMe(a)]: the overload picked by [resolve], applied to
    the converted argument; no call if resolution fails. *)
Definition printMe (a : arg) : option (M unit) :=
  match resolve a with
  | Selected printMe_int => option_map printMe_int_body (as_int a)
  | Selected printMe_ptr => option_map printMe_ptr_body (as_pointer a)
  | Ambiguous | NoViable => None
  end.

(** [int main()] *)
Definition main : program :=
  match printMe (literal 0), printMe nullptr with
  | Some call1, Some call2 => Some (call1 ;; call2 ;; ret 0)
  | _, _ => None
  end.

End Implementation.

End Nullptr.

(** ** variadic.cxx *)

Module Variadic.

Section Implementation.

(** [__PRETTY_FUNCTION__] inside the instantiation of the recursive
    [adder] whose pack [Args] has [k] elements (all of them [int], like
    [T]).  Its text is chosen by the compiler. *)
Variable PRETTY_FUNCTION : nat -> string.

(** [adder(first, args...)] on [int]s.  With an empty pack the call is
    to [T adder(T v)], the more specialised template; otherwise to
    [T adder(T first, Args... args)], which passes the pack on. *)
Fixpoint adder (first : Z) (args : list Z) : M Z :=
  match args with
  | [] => ret first
  | second :: rest =>
      insert_text (PRETTY_FUNCTION (List.length args)) ;;
      insert_text newline ;;
      r <- adder second rest ;;
      ret (int_add first r)
  end.

(** [int main()]: the call is an expression statement, its value is
    dropped. *)
Definition main : program :=
  Some (_ <- adder 1 [2; 3; 8; 7] ;; ret 0).

End Implementation.

(** The pack handed to the recursive call made by [adder] on a pack, if
    it makes one. *)
Definition adder_callee (pack : list Z) : option (list Z) :=
  match pack with
  | _ :: (_ :: _) as args => Some args
  | _ => None
  end.

(** [calls callee caller]: the call of [adder] on [caller] calls [adder]
    on [callee]. *)
Definition calls (callee caller : list Z) : Prop :=
  adder_callee caller = Some callee.

(** The pack reached after [k] nested calls. *)
Fixpoint nested_call (k : nat) (pack : list Z) : option (list Z) :=
  match k with
  | O => Some pack
  | S k' =>
      match adder_callee pack with
      | Some args => nested_call k' args
      | None => None
      end
  end.

(** The exact sum of the arguments. *)
Definition sum (pack : list Z) : Z := fold_right Z.add 0 pack.

(** No addition made by [adder] on the pack leaves the range of [int]:
    every sum of an argument and the arguments after it is an [int]. *)
Fixpoint sums_fit (pack : list Z) : bool :=
  match pack with
  | [] => true
  | _ :: rest => in_int (sum pack) && sums_fit rest
  end.

(** The signature lines written for a pack of [k] arguments after the
    first, outermost call first. *)
Fixpoint signatures (PRETTY_FUNCTION : nat -> string) (k : nat)
  : list string :=
  match k with
  | O => []
  | S k' => PRETTY_FUNCTION k :: signatures PRETTY_FUNCTION k'
  end.

(** The text GCC gives [__PRETTY_FUNCTION__] in these instantiations. *)
Definition gcc_pretty_function (k : nat) : string :=
  "T adder(T, Args ...) [with T = int; Args = {"
    ++ String.concat ", " (repeat "int" k) ++ "}]".

End Variadic.

(** ** Vocabulary for the statements about printed text *)

Module Text.

(** Every character of a string passes a test. *)
Fixpoint string_forall (ok : ascii -> bool) (s : string) : bool :=
  match s with
  | EmptyString => true
  | String c s' => ok c && string_forall ok s'
  end.

(** The characters of a decimal numeral: the ten digits and the minus
    sign. *)
Definition numeral_char (c : ascii) : bool :=
  match c with
  | "0" | "1" | "2" | "3" | "4" | "5" | "6" | "7" | "8" | "9" | "-" => true
  | _ => false
  end%char.

Definition not_newline (c : ascii) : bool := negb (Ascii.eqb c "010"%char).

(** The line [printCoordinates] writes for a Position, without its line
    feed. *)
Definition coordinates_line (pos : InitLists.Position) : string :=
  "(" ++ decimal (InitLists.fX pos) ++ ", " ++ decimal (InitLists.fY pos)
    ++ ", " ++ decimal (InitLists.fZ pos) ++ ")".



End Text.

(** * Properties *)

(** ** Strings, lines and the [int] range *)

Lemma append_assoc (a b c : string) : (a ++ b) ++ c = a ++ (b ++ c).
Proof.
  induction a as [| ch a IH]; simpl.
  - reflexivity.
  - now rewrite IH.
Qed.

Lemma append_empty_r (a : string) : a ++ "" = a.
Proof.
  induction a as [| ch a IH]; simpl; [reflexivity | now rewrite IH].
Qed.

Lemma prefix_append (a b : string) : String.prefix a (a ++ b) = true.
Proof.
  induction a as [| ch a IH]; simpl.
  - now destruct b.
  - destruct (ascii_dec ch ch) as [_ | Hne]; [exact IH | now elim Hne].
Qed.

Lemma numeral_value_decimal (z : Z) : numeral_value (decimal z) = Some z.
Proof.
  unfold numeral_value, decimal.
  rewrite NilEmpty.isi. simpl. now rewrite DecimalZ.of_to.
Qed.

Lemma in_int_bounds (z : Z) :
  in_int z = true <-> INT_MIN <= z <= INT_MAX.
Proof.
  unfold in_int. rewrite andb_true_iff, !Z.leb_le. tauto.
Qed.

Lemma wrap_int_in_range (z : Z) : in_int z = true -> wrap_int z = z.
Proof.
  rewrite in_int_bounds. unfold INT_MIN, INT_MAX, wrap_int. intros H.
  rewrite Z.mod_small; lia.
Qed.

Lemma wrap_int_is_int (z : Z) : in_int (wrap_int z) = true.
Proof.
  rewrite in_int_bounds. unfold INT_MIN, INT_MAX, wrap_int.
  pose proof (Z.mod_pos_bound (z + 2 ^ 31) (2 ^ 32) ltac:(lia)). lia.
Qed.

Lemma wrap_int_add_r (a b : Z) : wrap_int (a + wrap_int b) = wrap_int (a + b).
Proof.
  unfold wrap_int.
  replace (a + ((b + 2 ^ 31) mod 2 ^ 32 - 2 ^ 31) + 2 ^ 31)
    with (a + (b + 2 ^ 31) mod 2 ^ 32) by lia.
  rewrite Zplus_mod_idemp_r. do 2 f_equal. lia.
Qed.

(** ** The monad *)

Lemma bind_run {A B : Type} (m : M A) (k : A -> M B) (p : process) :
  bind m k p = k (fst (m p)) (snd (m p)).
Proof. unfold bind. now destruct (m p). Qed.

Lemma insert_text_run (s : string) (p : process) :
  insert_text s p = (tt, {| host := host p; cout := cout p ++ s |}).
Proof. reflexivity. Qed.

(** ** initLists.cxx *)

Module InitListsFacts.
Import InitLists.

(** [printCoordinates] appends one line to the output, touches nothing
    else of the process and hands the object back as it got it. *)
Lemma printCoordinates_run (this : Position) (p : process) :
  printCoordinates this p =
    (this,
     {| host := host p;
        cout := cout p ++ "(" ++ decimal (fX this) ++ ", "
                  ++ decimal (fY this) ++ ", " ++ decimal (fZ this)
                  ++ ")" ++ newline |}).
Proof.
  unfold printCoordinates, insert_int, endl.
  repeat (rewrite bind_run, insert_text_run; cbn [fst snd host cout]).
  unfold ret. now rewrite !append_assoc.
Qed.

(** A loop over copies returns the range it was given, whatever the body
    does to its copy. *)
Lemma range_for_auto_range {A : Type} (body : A -> M A) (range : list A) :
  forall p, fst (range_for_auto body range p) = range.
Proof.
  induction range as [| elem rest IH]; intros p; simpl.
  - reflexivity.
  - rewrite !bind_run. unfold ret. simpl. now rewrite IH.
Qed.

(** C2: running the initializer-list program prints exactly the four
    lines "(-1, -100, -1)", "(1, 2, 3)", "(0, 0, 0)" and "(4, 5, 6)", in
    this order and nothing else, and returns 0. *)
Theorem initLists_prints_four_lines (w : world) :
  exists out : string,
    run_main main w = Some (0, out)
    /\ out = unlines
               ["(-1, -100, -1)"; "(1, 2, 3)"; "(0, 0, 0)"; "(4, 5, 6)"]
    /\ lines out =
         ["(-1, -100, -1)"; "(1, 2, 3)"; "(0, 0, 0)"; "(4, 5, 6)"]
    /\ List.length (lines out) = 4%nat.
Proof.
  exists (unlines
            ["(-1, -100, -1)"; "(1, 2, 3)"; "(0, 0, 0)"; "(4, 5, 6)"]).
  repeat split.
Qed.

(** C5: for all integers x, y, z the Position built from the braces
    {x, y, z} holds exactly x, y and z, and [printCoordinates] prints the
    line "(x, y, z)" with the three decimal numerals; empty braces give
    (0, 0, 0); every triple of field values is the state of some
    Position, so nothing else constrains the fields. *)
Theorem Position_holds_three_integers (x y z : Z) (p : process) :
  list_init [x; y; z] = Some (Position_xyz x y z)
  /\ (fX (Position_xyz x y z), fY (Position_xyz x y z),
      fZ (Position_xyz x y z)) = (x, y, z)
  /\ cout (snd (printCoordinates (Position_xyz x y z) p)) =
       cout p ++ "(" ++ decimal x ++ ", " ++ decimal y ++ ", "
         ++ decimal z ++ ")" ++ newline
  /\ (numeral_value (decimal x), numeral_value (decimal y),
      numeral_value (decimal z)) = (Some x, Some y, Some z)
  /\ list_init [] = Some Position_default
  /\ (fX Position_default, fY Position_default, fZ Position_default)
       = (0, 0, 0)
  /\ (forall pos : Position,
        list_init [fX pos; fY pos; fZ pos] = Some pos).
Proof.
  repeat split.
  - now rewrite printCoordinates_run.
  - now rewrite !numeral_value_decimal.
  - now intros [a b c].
Qed.

(** C10: [printCoordinates] leaves the three fields of its Position
    unchanged, the range-for loop works on copies and leaves its range
    unchanged, and at the end of [main] the vector [places] and the
    Positions in it are the ones it was initialised with. *)
Theorem printing_changes_no_Position (w : world) :
  (forall (this : Position) (p : process),
      fst (printCoordinates this p) = this)
  /\ (forall (body : Position -> M Position) (range : list Position)
             (p : process),
        fst (range_for_auto body range p) = range)
  /\ vector_init [[1; 2; 3]; []; [4; 5; 6]]
       = Some [Position_xyz 1 2 3; Position_default; Position_xyz 4 5 6]
  /\ option_map (fun body => fst (body (start w))) main_body
       = Some {| centreOfTheUniverse := Position_xyz (-1) (-100) (-1);
                 places := [Position_xyz 1 2 3; Position_default;
                            Position_xyz 4 5 6] |}.
Proof.
  split; [| split; [| split]].
  - intros this p. now rewrite printCoordinates_run.
  - intros body range p. apply range_for_auto_range.
  - reflexivity.
  - reflexivity.
Qed.

End InitListsFacts.

(** ** nullptr.cxx *)

Module NullptrFacts.
Import Nullptr.

(** The call that is commented out in [main]: with [NULL] both overloads
    need a conversion of the same rank and none is better. *)
Remark NULL_is_ambiguous (show_pointer : pointer -> string) :
  resolve NULL = Ambiguous /\ printMe show_pointer NULL = None.
Proof. split; reflexivity. Qed.

(** An integer literal other than zero has only the [int] overload. *)
Remark nonzero_literal_viable (z : Z) :
  z <> 0 -> viable (literal z) = [printMe_int].
Proof.
  intros H. unfold viable, candidates. simpl.
  now destruct (Z.eqb_spec z 0).
Qed.

Section Implementation.

Variable show_pointer : pointer -> string.

Lemma nullptr_main_run (w : world) :
  run_main (main show_pointer) w =
    Some (0, "I am an integer: 0" ++ newline
               ++ "I am a pointer to an integer: "
               ++ show_pointer null_pointer ++ newline).
Proof.
  unfold run_main, main. simpl.
  unfold printMe_int_body, printMe_ptr_body, insert_pointer, insert_int,
    endl.
  repeat (rewrite bind_run, insert_text_run; cbn [fst snd host cout]).
  unfold ret, start. cbn [cout].
  now rewrite ?append_assoc.
Qed.

(** C4: the call [printMe(nullptr)] selects the overload taking [int*]
    and not the one taking [int]: the second line of the output of the
    nullptr program is the "I am a pointer to an integer" message and
    never the "I am an integer" message. *)
Theorem nullptr_selects_pointer_overload (w : world) :
  resolve nullptr = Selected printMe_ptr
  /\ viable nullptr = [printMe_ptr]
  /\ printMe show_pointer nullptr
       = Some (printMe_ptr_body show_pointer null_pointer)
  /\ exists out : string,
       run_main (main show_pointer) w = Some (0, out)
       /\ after_first_line out =
            "I am a pointer to an integer: "
              ++ show_pointer null_pointer ++ newline
       /\ String.prefix "I am a pointer to an integer: "
            (after_first_line out) = true
       /\ String.prefix "I am an integer" (after_first_line out) = false.
Proof.
  split; [reflexivity |]. split; [reflexivity |]. split; [reflexivity |].
  eexists. split; [apply nullptr_main_run |].
  split; [reflexivity |]. split; [| reflexivity].
  exact (prefix_append "I am a pointer to an integer: "
           (show_pointer null_pointer ++ newline)).
Qed.

(** C9: the call [printMe(0)] selects the overload taking [int]: the
    first line of the output of the nullptr program is
    "I am an integer: 0". *)
Theorem literal_zero_selects_int_overload (w : world) :
  resolve (literal 0) = Selected printMe_int
  /\ viable (literal 0) = [printMe_int; printMe_ptr]
  /\ better (literal 0) printMe_int printMe_ptr = true
  /\ printMe show_pointer (literal 0) = Some (printMe_int_body 0)
  /\ exists out : string,
       run_main (main show_pointer) w = Some (0, out)
       /\ first_line out = "I am an integer: 0".
Proof.
  do 4 (split; [reflexivity |]).
  eexists. split; [apply nullptr_main_run |]. reflexivity.
Qed.

End Implementation.

End NullptrFacts.

(** ** variadic.cxx *)

Module VariadicFacts.
Import Variadic.

(** Each call is made on a pack one argument shorter. *)
Lemma adder_callee_length (pack : list Z) :
  match adder_callee pack with
  | Some callee => S (List.length callee) = List.length pack
  | None => (List.length pack <= 1)%nat
  end.
Proof.
  destruct pack as [| first [| second rest]]; simpl; lia.
Qed.

Lemma calls_wf : well_founded calls.
Proof.
  apply (Wf_nat.well_founded_lt_compat _ (@List.length Z)).
  intros callee caller H. unfold calls in H.
  pose proof (adder_callee_length caller) as L. rewrite H in L. lia.
Qed.

Lemma last_nonempty_default (l : list Z) :
  forall x d d' : Z, List.last (x :: l) d = List.last (x :: l) d'.
Proof.
  induction l as [| y l IH]; intros x d d'.
  - reflexivity.
  - change (List.last (y :: l) d = List.last (y :: l) d'). apply IH.
Qed.

(** After as many nested calls as there are arguments after the first,
    the pack is down to the last argument. *)
Lemma nested_call_base (args : list Z) :
  forall first : Z,
    nested_call (List.length args) (first :: args)
      = Some [List.last args first].
Proof.
  induction args as [| second rest IH]; intros first.
  - reflexivity.
  - cbn [List.length nested_call adder_callee]. rewrite IH.
    do 2 f_equal.
    destruct rest as [| third rest]; [reflexivity |].
    change (List.last (third :: rest) second
            = List.last (third :: rest) first).
    apply last_nonempty_default.
Qed.

Section Implementation.

Variable PRETTY_FUNCTION : nat -> string.

Lemma adder_step (first second : Z) (rest : list Z) (p : process) :
  adder PRETTY_FUNCTION first (second :: rest) p =
    let p' := {| host := host p;
                 cout := cout p
                   ++ PRETTY_FUNCTION (S (List.length rest)) ++ newline |}
    in (int_add first (fst (adder PRETTY_FUNCTION second rest p')),
        snd (adder PRETTY_FUNCTION second rest p')).
Proof.
  cbn [adder].
  rewrite bind_run, insert_text_run; cbn [fst snd].
  rewrite bind_run, insert_text_run; cbn [fst snd host cout].
  rewrite bind_run. unfold ret. cbn [List.length].
  now rewrite append_assoc.
Qed.

(** What a call writes: one signature line for each call that is not
    the base case; the rest of the process is untouched. *)
Lemma adder_process (args : list Z) :
  forall (first : Z) (p : process),
    snd (adder PRETTY_FUNCTION first args p) =
      {| host := host p;
         cout := cout p
           ++ unlines (signatures PRETTY_FUNCTION (List.length args)) |}.
Proof.
  induction args as [| second rest IH]; intros first p.
  - cbn. rewrite append_empty_r. now destruct p.
  - rewrite adder_step. cbn [snd]. rewrite IH. cbn [host cout].
    cbn [List.length signatures unlines].
    now rewrite !append_assoc.
Qed.

(** What a call returns when no addition overflows. *)
Lemma adder_value (args : list Z) :
  forall (first : Z) (p : process),
    sums_fit (first :: args) = true ->
    fst (adder PRETTY_FUNCTION first args p) = sum (first :: args).
Proof.
  induction args as [| second rest IH]; intros first p H.
  - cbn. lia.
  - rewrite adder_step. cbn [fst].
    cbn [sums_fit] in H. apply andb_true_iff in H. destruct H as [H1 H2].
    rewrite IH by exact H2.
    unfold int_add. now apply wrap_int_in_range.
Qed.

(** What a call returns in general: the sum of its [int] arguments
    reduced into the range of [int]. *)
Lemma adder_value_modular (args : list Z) :
  forall (first : Z) (p : process),
    forallb in_int (first :: args) = true ->
    fst (adder PRETTY_FUNCTION first args p)
      = wrap_int (sum (first :: args)).
Proof.
  induction args as [| second rest IH]; intros first p H.
  - cbn in *. rewrite andb_true_r in H.
    rewrite Z.add_0_r. symmetry. now apply wrap_int_in_range.
  - rewrite adder_step. cbn [fst].
    cbn [forallb] in H. apply andb_true_iff in H. destruct H as [_ H2].
    rewrite IH by exact H2.
    unfold int_add. apply wrap_int_add_r.
Qed.

(** C1, as amended: for every non-empty list of [int] arguments in
    which no addition overflows (each argument plus the sum of the
    arguments after it is in the range of [int]), [adder] returns the
    sum of all its arguments; [adder(1, 2, 3, 8, 7)] returns 21, and
    [main] discards this value: its exit code is 0 and its output is
    what the call wrote, whatever the value. *)
Theorem adder_returns_sum
  (first : Z) (args : list Z) (p : process) (w : world) :
  sums_fit (first :: args) = true ->
  fst (adder PRETTY_FUNCTION first args p) = sum (first :: args)
  /\ fst (adder PRETTY_FUNCTION 1 [2; 3; 8; 7] p) = 21
  /\ run_main (main PRETTY_FUNCTION) w
       = Some (0, cout (snd (adder PRETTY_FUNCTION 1 [2; 3; 8; 7]
                               (start w)))).
Proof.
  intros H. split; [now apply adder_value |]. split.
  - now rewrite adder_value.
  - unfold run_main, main. rewrite bind_run. reflexivity.
Qed.

Lemma variadic_main_run (w : world) :
  run_main (main PRETTY_FUNCTION) w
    = Some (0, unlines [PRETTY_FUNCTION 4%nat; PRETTY_FUNCTION 3%nat;
                        PRETTY_FUNCTION 2%nat; PRETTY_FUNCTION 1%nat]).
Proof.
  unfold run_main, main. rewrite bind_run, adder_process. reflexivity.
Qed.

(** C3: a call of [adder] with n >= 1 arguments prints exactly n - 1
    signature lines, one for each recursive step and in the order of
    the calls; the base case with a single argument prints nothing;
    the call [adder(1, 2, 3, 8, 7)] in [main] prints exactly 4. *)
Theorem adder_prints_signature_lines
  (first : Z) (args : list Z) (p : process) (w : world) :
  cout (snd (adder PRETTY_FUNCTION first args p))
    = cout p ++ unlines (signatures PRETTY_FUNCTION (List.length args))
  /\ List.length (signatures PRETTY_FUNCTION (List.length args))
       = (List.length (first :: args) - 1)%nat
  /\ snd (adder PRETTY_FUNCTION first [] p) = p
  /\ run_main (main PRETTY_FUNCTION) w
       = Some (0, unlines [PRETTY_FUNCTION 4%nat; PRETTY_FUNCTION 3%nat;
                           PRETTY_FUNCTION 2%nat; PRETTY_FUNCTION 1%nat])
  /\ List.length (signatures PRETTY_FUNCTION (List.length [2; 3; 8; 7]))
       = 4%nat.
Proof.
  split; [now rewrite adder_process |].
  split.
  { cbn [List.length]. generalize (List.length args) as k. intros k.
    replace (S k - 1)%nat with k by lia.
    induction k as [| k IH]; cbn; [reflexivity | now rewrite IH]. }
  split; [reflexivity |].
  split; [| reflexivity].
  apply variadic_main_run.
Qed.

End Implementation.

(** An instance of the amended C1 at the upper end of the range:
    [adder(2147483640, 3, 4)] returns [INT_MAX]. *)
Lemma adder_returns_sum_witness :
  sums_fit [2147483640; 3; 4] = true
  /\ (fst (adder gcc_pretty_function 2147483640 [3; 4] (start bare))
        = sum [2147483640; 3; 4]
      /\ fst (adder gcc_pretty_function 1 [2; 3; 8; 7] (start bare)) = 21
      /\ run_main (main gcc_pretty_function) bare
           = Some (0, cout (snd (adder gcc_pretty_function 1 [2; 3; 8; 7]
                                   (start bare))))).
Proof.
  split.
  - reflexivity.
  - apply (adder_returns_sum gcc_pretty_function 2147483640 [3; 4]
             (start bare) bare).
    reflexivity.
Defined.

(** C1 as stated fails when an addition overflows:
    [adder(2147483647, 1)] is called with two [int]s whose sum is
    2147483648, and returns -2147483648. *)
Lemma adder_overflow_counterexample :
  forallb in_int [2147483647; 1] = true
  /\ sum [2147483647; 1] = 2147483648
  /\ fst (adder gcc_pretty_function 2147483647 [1] (start bare))
       = -2147483648
  /\ fst (adder gcc_pretty_function 2147483647 [1] (start bare))
       <> sum [2147483647; 1].
Proof.
  split; [reflexivity |]. split; [reflexivity |]. split; [reflexivity |].
  vm_compute. discriminate.
Qed.

End VariadicFacts.

(** ** The three programs together *)

Module Programs.

Section Implementation.

Variable show_pointer : Nullptr.pointer -> string.
Variable PRETTY_FUNCTION : nat -> string.

Lemma initLists_main_run (w : world) :
  run_main InitLists.main w =
    Some (0, unlines
               ["(-1, -100, -1)"; "(1, 2, 3)"; "(0, 0, 0)"; "(4, 5, 6)"]).
Proof. reflexivity. Qed.

(** C6: every run of each of the three programs completes and exits
    with code 0 (success): the initialisations and both calls of
    [printMe] are well-formed, and no addition made by
    [adder(1, 2, 3, 8, 7)] leaves the range of [int]. *)
Theorem programs_exit_with_success (w : world) :
  (exists out : string, run_main InitLists.main w = Some (0, out))
  /\ (exists out : string,
        run_main (Nullptr.main show_pointer) w = Some (0, out))
  /\ (exists out : string,
        run_main (Variadic.main PRETTY_FUNCTION) w = Some (0, out))
  /\ Variadic.sums_fit [1; 2; 3; 8; 7] = true.
Proof.
  split; [eexists; apply initLists_main_run |].
  split; [eexists; apply NullptrFacts.nullptr_main_run |].
  split; [eexists; apply VariadicFacts.variadic_main_run |].
  reflexivity.
Qed.

(** C7: the three programs terminate; every call of [adder]
    terminates: a call on a pack calls [adder] only on the pack without
    its first argument, which is one shorter, so the calls are
    well-founded and after as many steps as there are further
    arguments they reach the base case with the single last argument,
    which makes no call. *)
Theorem programs_terminate
  (w : world) (pack : list Z) (first : Z) (args : list Z) (p : process) :
  (exists r, run_main InitLists.main w = Some r)
  /\ (exists r, run_main (Nullptr.main show_pointer) w = Some r)
  /\ (exists r, run_main (Variadic.main PRETTY_FUNCTION) w = Some r)
  /\ well_founded Variadic.calls
  /\ match Variadic.adder_callee pack with
     | Some callee => S (List.length callee) = List.length pack
     | None => (List.length pack <= 1)%nat
     end
  /\ Variadic.adder_callee (first :: args)
       = match args with [] => None | _ :: _ => Some args end
  /\ Variadic.nested_call (List.length args) (first :: args)
       = Some [List.last args first]
  /\ Variadic.adder_callee [List.last args first] = None
  /\ (exists (r : Z) (p' : process),
        Variadic.adder PRETTY_FUNCTION first args p = (r, p')).
Proof.
  split; [eexists; apply initLists_main_run |].
  split; [eexists; apply NullptrFacts.nullptr_main_run |].
  split; [eexists; apply VariadicFacts.variadic_main_run |].
  split; [apply VariadicFacts.calls_wf |].
  split; [apply VariadicFacts.adder_callee_length |].
  split; [now destruct args |].
  split; [apply VariadicFacts.nested_call_base |].
  split; [reflexivity |].
  destruct (Variadic.adder PRETTY_FUNCTION first args p) as [r p'].
  now exists r, p'.
Qed.

(** C8: each program is deterministic: it reads nothing of what the
    process was started with, so two runs of the same program give the
    same text on standard output and the same exit code. *)
Theorem programs_are_deterministic (w1 w2 : world) :
  run_main InitLists.main w1 = run_main InitLists.main w2
  /\ run_main (Nullptr.main show_pointer) w1
       = run_main (Nullptr.main show_pointer) w2
  /\ run_main (Variadic.main PRETTY_FUNCTION) w1
       = run_main (Variadic.main PRETTY_FUNCTION) w2.
Proof.
  split; [reflexivity |]. split.
  - now rewrite !NullptrFacts.nullptr_main_run.
  - now rewrite !VariadicFacts.variadic_main_run.
Qed.

End Implementation.

End Programs.


(** * Further properties *)

(** ** Characters of the printed text *)

Import Text.

Lemma string_forall_app (ok : ascii -> bool) (a b : string) :
  string_forall ok (a ++ b) = string_forall ok a && string_forall ok b.
Proof.
  induction a as [| c a IH]; simpl; [reflexivity |].
  now rewrite IH, andb_assoc.
Qed.

Lemma string_forall_impl (ok ok' : ascii -> bool) (s : string) :
  (forall c, ok c = true -> ok' c = true) ->
  string_forall ok s = true -> string_forall ok' s = true.
Proof.
  intros Himp. induction s as [| c s IH]; simpl; [reflexivity |].
  rewrite !andb_true_iff. intros [Hc Hs]. split; auto.
Qed.

Lemma uint_numeral_chars (d : Decimal.uint) :
  string_forall numeral_char (NilEmpty.string_of_uint d) = true.
Proof. induction d; simpl; auto. Qed.

Lemma decimal_numeral_chars (z : Z) :
  string_forall numeral_char (decimal z) = true.
Proof.
  unfold decimal. destruct (Z.to_int z) as [d | d]; simpl;
    apply uint_numeral_chars.
Qed.

Lemma numeral_char_not_newline (c : ascii) :
  numeral_char c = true -> not_newline c = true.
Proof.
  intros H. unfold not_newline.
  destruct (Ascii.eqb_spec c "010"%char) as [-> | _];
    [discriminate H | reflexivity].
Qed.

Lemma decimal_injective (x y : Z) : decimal x = decimal y -> x = y.
Proof.
  intros H. pose proof (numeral_value_decimal x) as Hx.
  rewrite H, numeral_value_decimal in Hx. now injection Hx.
Qed.

Lemma append_cancel_l (a b c : string) : a ++ b = a ++ c -> b = c.
Proof.
  induction a as [| ch a IH]; simpl; intros H; [exact H |].
  injection H as H. now apply IH.
Qed.

(** Two texts that each start with a run of accepted characters followed
    by a character that is not accepted split at the same place. *)
Lemma split_at_stop (ok : ascii -> bool) (a : string) :
  forall (a' : string) (c c' : ascii) (r r' : string),
    string_forall ok a = true -> string_forall ok a' = true ->
    ok c = false -> ok c' = false ->
    a ++ String c r = a' ++ String c' r' ->
    a = a' /\ r = r'.
Proof.
  induction a as [| x a IH]; intros a' c c' r r' Ha Ha' Hc Hc' H.
  - destruct a' as [| y a']; simpl in *.
    + injection H as _ H. now split.
    + injection H as H _. subst y.
      apply andb_true_iff in Ha'. destruct Ha' as [Hy _]. congruence.
  - destruct a' as [| y a']; simpl in *.
    + injection H as H _. subst x.
      apply andb_true_iff in Ha. destruct Ha as [Hx _]. congruence.
    + injection H as Hxy H. subst y.
      apply andb_true_iff in Ha. apply andb_true_iff in Ha'.
      destruct Ha as [_ Ha]. destruct Ha' as [_ Ha'].
      destruct (IH a' c c' r r' Ha Ha' Hc Hc' H) as [-> ->]. now split.
Qed.

Lemma lines_from_line (l : string) :
  forall cur rest : string,
    string_forall not_newline l = true ->
    lines_from cur (l ++ newline ++ rest) = (cur ++ l) :: lines_from "" rest.
Proof.
  induction l as [| c l IH]; intros cur rest H.
  - simpl. now rewrite append_empty_r.
  - simpl in H. apply andb_true_iff in H. destruct H as [Hc Hl].
    unfold not_newline in Hc. apply negb_true_iff in Hc.
    cbn [append lines_from]. rewrite Hc, IH by exact Hl.
    now rewrite append_assoc.
Qed.

Lemma lines_unlines (ls : list string) :
  forallb (string_forall not_newline) ls = true ->
  lines (unlines ls) = ls.
Proof.
  unfold lines. induction ls as [| l ls IH]; intros H.
  - reflexivity.
  - cbn [forallb] in H. apply andb_true_iff in H. destruct H as [Hl Hls].
    cbn [unlines]. rewrite lines_from_line by exact Hl.
    cbn [append]. now rewrite IH.
Qed.

Lemma coordinates_line_no_newline (pos : InitLists.Position) :
  string_forall not_newline (coordinates_line pos) = true.
Proof.
  unfold coordinates_line.
  assert (D : forall z, string_forall not_newline (decimal z) = true).
  { intros z. apply (string_forall_impl numeral_char);
      [apply numeral_char_not_newline | apply decimal_numeral_chars]. }
  do 3 (cbn [append string_forall]; rewrite ?string_forall_app, ?D).
  reflexivity.
Qed.

(** ** initLists.cxx: construction, the loop and the printed lines *)

Module InitListsMore.
Import InitLists.



Lemma range_for_printCoordinates_run (v : list Position) :
  forall p : process,
    range_for_auto printCoordinates v p =
      (v, {| host := host p;
             cout := cout p ++ unlines (map coordinates_line v) |}).
Proof.
  induction v as [| pos v IH]; intros p.
  - cbn. rewrite append_empty_r. now destruct p.
  - cbn [range_for_auto]. rewrite bind_run, InitListsFacts.printCoordinates_run.
    cbn [fst snd]. rewrite bind_run, IH. unfold ret. cbn [fst snd host cout].
    cbn [map unlines]. unfold coordinates_line.
    repeat rewrite append_assoc. reflexivity.
Qed.

(** X2: the loop [for (auto i : places) i.printCoordinates()] over any
    vector appends one line per element, in the order of the elements, and
    nothing else: the added text splits into exactly as many lines as the
    vector has elements, the i-th being "(x, y, z)" for the i-th element;
    an empty vector adds nothing. *)
Theorem loop_prints_one_line_per_element
  (v : list Position) (p : process) :
  snd (range_for_auto printCoordinates v p) =
    {| host := host p; cout := cout p ++ unlines (map coordinates_line v) |}
  /\ lines (unlines (map coordinates_line v)) = map coordinates_line v
  /\ List.length (lines (unlines (map coordinates_line v))) = List.length v
  /\ snd (range_for_auto printCoordinates [] p) = p.
Proof.
  assert (L : lines (unlines (map coordinates_line v))
              = map coordinates_line v).
  { apply lines_unlines. induction v as [| pos v IH]; [reflexivity |].
    cbn [map forallb]. now rewrite coordinates_line_no_newline, IH. }
  split; [now rewrite range_for_printCoordinates_run |].
  split; [exact L |].
  split; [now rewrite L, length_map |].
  reflexivity.
Qed.

(** X3: a loop over copies of [v1 ++ v2] is the loop over [v1] followed
    by the loop over [v2], for any loop body. *)
Theorem range_for_auto_app
  (body : Position -> M Position) (v1 v2 : list Position) (p : process) :
  range_for_auto body (v1 ++ v2)%list p =
    (fst (range_for_auto body v1 p)
       ++ fst (range_for_auto body v2 (snd (range_for_auto body v1 p))),
     snd (range_for_auto body v2 (snd (range_for_auto body v1 p))))%list.
Proof.
  revert p. induction v1 as [| pos v1 IH]; intros p.
  - cbn. now destruct (range_for_auto body v2 p).
  - cbn [range_for_auto List.app]. rewrite !bind_run. unfold ret.
    cbn [fst snd]. rewrite ?bind_run. cbn [fst snd]. now rewrite IH.
Qed.

Lemma coordinates_line_injective (a b : Position) :
  coordinates_line a ++ newline = coordinates_line b ++ newline -> a = b.
Proof.
  destruct a as [x y z], b as [x' y' z']. unfold coordinates_line.
  cbn [fX fY fZ append]. intros H. injection H as H.
  rewrite !append_assoc in H. cbn [append] in H.
  apply (split_at_stop numeral_char) in H;
    try apply decimal_numeral_chars; try reflexivity.
  destruct H as [Hx H]. injection H as H.
  rewrite !append_assoc in H. cbn [append] in H.
  apply (split_at_stop numeral_char) in H;
    try apply decimal_numeral_chars; try reflexivity.
  destruct H as [Hy H]. injection H as H.
  rewrite !append_assoc in H. cbn [append] in H.
  apply (split_at_stop numeral_char) in H;
    try apply decimal_numeral_chars; try reflexivity.
  destruct H as [Hz _].
  apply decimal_injective in Hx, Hy, Hz. now subst.
Qed.

(** X4: the line [printCoordinates] writes identifies the Position: two
    Positions for which it writes the same text have the same three
    fields. *)
Theorem printed_line_identifies_Position (a b : Position) (p : process) :
  cout (snd (printCoordinates a p)) = cout (snd (printCoordinates b p)) ->
  a = b.
Proof.
  rewrite !InitListsFacts.printCoordinates_run. cbn [snd cout]. intros H.
  apply append_cancel_l in H. apply coordinates_line_injective.
  unfold coordinates_line. rewrite !append_assoc. cbn [append].
  cbn [append] in H. exact H.
Qed.

Lemma printed_line_identifies_Position_witness :
  cout (snd (printCoordinates (Position_xyz (-1) (-100) (-1)) (start bare)))
    = cout (snd (printCoordinates (Position_xyz (-1) (-100) (-1))
                   (start bare)))
  /\ Position_xyz (-1) (-100) (-1) = Position_xyz (-1) (-100) (-1).
Proof.
  split.
  - reflexivity.
  - apply (printed_line_identifies_Position _ _ (start bare)). reflexivity.
Defined.

End InitListsMore.

(** ** nullptr.cxx: every form of argument *)

Module NullptrMore.
Import Nullptr.



Section Implementation.

Variable show_pointer : pointer -> string.

Lemma printMe_int_body_run (i : Z) (p : process) :
  printMe_int_body i p =
    (tt, {| host := host p;
            cout := cout p ++ "I am an integer: " ++ decimal i ++ newline |}).
Proof.
  unfold printMe_int_body, insert_int, endl.
  repeat (rewrite bind_run, insert_text_run; cbn [fst snd host cout]).
  rewrite ?insert_text_run. cbn [fst snd host cout].
  now rewrite !append_assoc.
Qed.

Lemma printMe_ptr_body_run (i : pointer) (p : process) :
  printMe_ptr_body show_pointer i p =
    (tt, {| host := host p;
            cout := cout p ++ "I am a pointer to an integer: "
                      ++ show_pointer i ++ newline |}).
Proof.
  unfold printMe_ptr_body, insert_pointer, endl.
  repeat (rewrite bind_run, insert_text_run; cbn [fst snd host cout]).
  rewrite ?insert_text_run. cbn [fst snd host cout].
  now rewrite !append_assoc.
Qed.


(** X7: the two overloads can be told apart by what they print: from the
    same output so far, [printMe(int)] and [printMe(int *i)] never leave the
    same text, whatever the integer, the pointer and the pointer format. *)
Theorem printMe_messages_differ (i : Z) (ptr : pointer) (p : process) :
  String.eqb (cout (snd (printMe_int_body i p)))
             (cout (snd (printMe_ptr_body show_pointer ptr p))) = false.
Proof.
  rewrite printMe_int_body_run, printMe_ptr_body_run. cbn [snd cout].
  apply String.eqb_neq. intros H. apply append_cancel_l in H.
  cbn [append] in H. discriminate H.
Qed.

(** X8: what [printMe(int)] prints identifies its argument: two integers
    for which it leaves the same text are equal. *)
Theorem printMe_int_line_identifies_integer (i j : Z) (p : process) :
  cout (snd (printMe_int_body i p)) = cout (snd (printMe_int_body j p)) ->
  i = j.
Proof.
  rewrite !printMe_int_body_run. cbn [snd cout]. intros H.
  apply append_cancel_l in H. cbn [append] in H.
  repeat (injection H as H).
  apply (split_at_stop numeral_char) in H;
    try apply decimal_numeral_chars; try reflexivity.
  destruct H as [H _]. now apply decimal_injective.
Qed.

End Implementation.

Lemma printMe_int_line_identifies_integer_witness :
  cout (snd (printMe_int_body 0 (start bare)))
    = cout (snd (printMe_int_body 0 (start bare)))
  /\ 0 = 0.
Proof.
  split.
  - reflexivity.
  - apply (printMe_int_line_identifies_integer 0 0 (start bare)). reflexivity.
Defined.

End NullptrMore.

(** ** variadic.cxx: the value and the output of [adder] in general *)

Module VariadicMore.
Import Variadic.

Lemma wrap_int_add_l (a b : Z) : wrap_int (wrap_int a + b) = wrap_int (a + b).
Proof. now rewrite Z.add_comm, wrap_int_add_r, Z.add_comm. Qed.

Lemma sum_app (l1 l2 : list Z) : sum (l1 ++ l2)%list = sum l1 + sum l2.
Proof.
  unfold sum. induction l1 as [| x l1 IH]; cbn [List.app fold_right];
    [reflexivity | rewrite IH; lia].
Qed.

Lemma sum_Permutation (l1 l2 : list Z) : Permutation l1 l2 -> sum l1 = sum l2.
Proof.
  unfold sum. induction 1; cbn [fold_right]; lia.
Qed.

Lemma forallb_Permutation (ok : Z -> bool) (l1 l2 : list Z) :
  Permutation l1 l2 -> forallb ok l1 = forallb ok l2.
Proof.
  induction 1 as [| x l l' _ IH | x y l | l l' l'' _ IH1 _ IH2];
    cbn [forallb].
  - reflexivity.
  - now rewrite IH.
  - now rewrite !andb_assoc, (andb_comm (ok y) (ok x)).
  - now rewrite IH1.
Qed.

Section Implementation.

Variable PRETTY_FUNCTION : nat -> string.

(** X9: on [int] arguments [adder] returns an [int]: the sum of all its
    arguments reduced modulo 2^32 into the range of [int] (the result of
    the wrapping additions), whether or not an addition overflows. *)
Theorem adder_wraps_sum (first : Z) (args : list Z) (p : process) :
  forallb in_int (first :: args) = true ->
  fst (adder PRETTY_FUNCTION first args p) = wrap_int (sum (first :: args))
  /\ in_int (fst (adder PRETTY_FUNCTION first args p)) = true.
Proof.
  intros H. rewrite VariadicFacts.adder_value_modular by exact H.
  split; [reflexivity | apply wrap_int_is_int].
Qed.

(** X10: on [int] arguments the value of [adder] is the exact sum of the
    arguments if and only if that sum is in the range of [int]. *)
Theorem adder_exact_iff_sum_fits (first : Z) (args : list Z) (p : process) :
  forallb in_int (first :: args) = true ->
  (fst (adder PRETTY_FUNCTION first args p) = sum (first :: args)
   <-> in_int (sum (first :: args)) = true).
Proof.
  intros H. rewrite VariadicFacts.adder_value_modular by exact H. split.
  - intros E. rewrite <- E. apply wrap_int_is_int.
  - apply wrap_int_in_range.
Qed.

(** X11: on [int] arguments the value of [adder] does not depend on the
    order of the arguments. *)
Theorem adder_order_independent
  (first first' : Z) (args args' : list Z) (p p' : process) :
  forallb in_int (first :: args) = true ->
  Permutation (first :: args) (first' :: args') ->
  fst (adder PRETTY_FUNCTION first args p)
    = fst (adder PRETTY_FUNCTION first' args' p').
Proof.
  intros H P.
  rewrite !VariadicFacts.adder_value_modular.
  - now rewrite (sum_Permutation _ _ P).
  - now rewrite <- (forallb_Permutation in_int _ _ P).
  - exact H.
Qed.

(** X12: the value of [adder] depends on its arguments only: not on the
    output written so far nor on the text of the signatures. *)
Theorem adder_value_pure
  (PRETTY_FUNCTION' : nat -> string) (first : Z) (args : list Z)
  (p p' : process) :
  fst (adder PRETTY_FUNCTION first args p)
    = fst (adder PRETTY_FUNCTION' first args p').
Proof.
  revert first p p'. induction args as [| second rest IH]; intros first p p'.
  - reflexivity.
  - rewrite !VariadicFacts.adder_step. cbn [fst]. f_equal. apply IH.
Qed.


(** X14: splitting the pack: on [int] arguments, the value of [adder] on
    [first, xs..., y, ys...] is the wrapping sum of its values on
    [first, xs...] and on [y, ys...]. *)
Theorem adder_split_pack
  (first y : Z) (xs ys : list Z) (p : process) :
  forallb in_int (first :: xs ++ y :: ys) = true ->
  fst (adder PRETTY_FUNCTION first (xs ++ y :: ys) p)
    = int_add (fst (adder PRETTY_FUNCTION first xs p))
              (fst (adder PRETTY_FUNCTION y ys p)).
Proof.
  intros H.
  assert (H' := H). change (first :: xs ++ y :: ys)%list
    with ((first :: xs) ++ (y :: ys))%list in H'.
  rewrite forallb_app in H'. apply andb_true_iff in H'.
  destruct H' as [H1 H2].
  rewrite !VariadicFacts.adder_value_modular by assumption.
  change (first :: xs ++ y :: ys)%list with ((first :: xs) ++ (y :: ys))%list.
  rewrite sum_app. unfold int_add.
  now rewrite wrap_int_add_l, wrap_int_add_r.
Qed.

End Implementation.

Lemma adder_wraps_sum_witness :
  forallb in_int [2147483647; 1] = true
  /\ (fst (adder gcc_pretty_function 2147483647 [1] (start bare))
        = wrap_int (sum [2147483647; 1])
      /\ in_int (fst (adder gcc_pretty_function 2147483647 [1] (start bare)))
           = true).
Proof.
  split.
  - reflexivity.
  - apply (adder_wraps_sum gcc_pretty_function 2147483647 [1] (start bare)).
    reflexivity.
Defined.

Lemma adder_exact_iff_sum_fits_witness :
  forallb in_int [-2147483648; -1; 1] = true
  /\ (fst (adder gcc_pretty_function (-2147483648) [-1; 1] (start bare))
        = sum [-2147483648; -1; 1]
      <-> in_int (sum [-2147483648; -1; 1]) = true).
Proof.
  split.
  - reflexivity.
  - apply (adder_exact_iff_sum_fits gcc_pretty_function (-2147483648) [-1; 1]
             (start bare)).
    reflexivity.
Defined.

Lemma adder_order_independent_witness :
  forallb in_int [2147483647; 1; -5] = true
  /\ Permutation [2147483647; 1; -5] [1; 2147483647; -5]
  /\ fst (adder gcc_pretty_function 2147483647 [1; -5] (start bare))
       = fst (adder gcc_pretty_function 1 [2147483647; -5] (start bare)).
Proof.
  split; [reflexivity |]. split; [apply perm_swap |].
  apply (adder_order_independent gcc_pretty_function
           2147483647 1 [1; -5] [2147483647; -5] (start bare) (start bare)).
  - reflexivity.
  - apply perm_swap.
Defined.


Lemma adder_split_pack_witness :
  forallb in_int (1 :: [2; 3] ++ 8 :: [7]) = true
  /\ fst (adder gcc_pretty_function 1 ([2; 3] ++ 8 :: [7]) (start bare))
       = int_add (fst (adder gcc_pretty_function 1 [2; 3] (start bare)))
                 (fst (adder gcc_pretty_function 8 [7] (start bare))).
Proof.
  split.
  - reflexivity.
  - apply (adder_split_pack gcc_pretty_function 1 8 [2; 3] [7] (start bare)).
    reflexivity.
Defined.

End VariadicMore.
